(** * TopGun native hashing addon ([packages/native/src/hash.cc])

    A shallow embedding of the N-API entry points of the addon
    ([xxhash64], [xxhash64AsNumber], [xxhash64Batch],
    [xxhash64BatchAsNumbers] and the [XxHash64State] class) together with
    the xxHash64 routines they call.

    Layout:
    - [U64]      : unsigned 64-bit arithmetic on [Z] with explicit wrap-around;
    - [XXH]      : the hashing engine ([XXH64], [XXH64_reset], [XXH64_update],
                   [XXH64_digest]);
    - [Napi]     : the JavaScript values the entry points receive and return;
    - the entry points of [hash.cc] themselves;
    - the theorems. *)

From Stdlib Require Import String ZArith Bool List Lia.
From Stdlib.Strings Require Import Byte.
Import ListNotations.
Local Open Scope Z_scope.

(** ** Unsigned 64-bit words

    A [uint64_t] is a [Z] in [0, 2^64); every operation that can leave the
    range is followed by [wrap]. *)
Module U64.

Definition modulus : Z := 2 ^ 64.

Definition wrap (x : Z) : Z := x mod modulus.

Definition add (a b : Z) : Z := wrap (a + b).
Definition sub (a b : Z) : Z := wrap (a - b).
Definition mul (a b : Z) : Z := wrap (a * b).

(** [(x << r) | (x >> (64 - r))] on a 64-bit operand. *)
Definition rotl (x : Z) (r : Z) : Z :=
  wrap (Z.lor (Z.shiftl x r) (Z.shiftr x (64 - r))).

End U64.

(** ** The hashing engine *)
Module XXH.

(** Modelled from the spec: [xxhash.h], which [hash.cc] includes, is missing;
    section 3 lists the five 64-bit prime constants. *)
Definition P1 : Z := 0x9E3779B185EBCA87.
Definition P2 : Z := 0xC2B2AE3D27D4EB4F.
Definition P3 : Z := 0x165667B19E3779F9.
Definition P4 : Z := 0x85EBCA77C2B2AE63.
Definition P5 : Z := 0x27D4EB2F165667C5.

Definition byte_val (b : byte) : Z := Z.of_N (Byte.to_N b).

(** Modelled from the spec: [xxhash.h], which [hash.cc] includes, is missing;
    section 4.1, "Byte order": all multi-byte reads from the input are
    little-endian.  [le_combine] is the little-endian value of a byte
    string. *)
Fixpoint le_combine (l : list byte) : Z :=
  match l with
  | [] => 0
  | b :: t => Z.lor (byte_val b) (Z.shiftl (le_combine t) 8)
  end.

(** Modelled from the spec: [xxhash.h], which [hash.cc] includes, is missing;
    the 8-byte lane that starts at [p], read little-endian. *)
Definition readLE64 (p : list byte) : Z := le_combine (firstn 8 p).

(** Modelled from the spec: [xxhash.h], which [hash.cc] includes, is missing;
    section 3, "Lane mix function":
    [acc += input * P2; acc = rotate_left(acc, 31); acc *= P1]. *)
Definition round (acc input : Z) : Z :=
  U64.mul (U64.rotl (U64.add acc (U64.mul input P2)) 31) P1.

(** Modelled from the spec: [xxhash.h], which [hash.cc] includes, is missing;
    section 3, "Lane merge function":
    [acc = round(0, acc); hash ^= acc; hash = hash * P1 + P4]. *)
Definition mergeRound (hash acc : Z) : Z :=
  U64.add (U64.mul (Z.lxor hash (round 0 acc)) P1) P4.

(** Modelled from the spec: [xxhash.h], which [hash.cc] includes, is missing;
    section 3, "Finalization (avalanche)":
    [h ^= h >> 33; h *= P2; h ^= h >> 29; h *= P3; h ^= h >> 32]. *)
Definition avalanche (h : Z) : Z :=
  let h := Z.lxor h (Z.shiftr h 33) in
  let h := U64.mul h P2 in
  let h := Z.lxor h (Z.shiftr h 29) in
  let h := U64.mul h P3 in
  Z.lxor h (Z.shiftr h 32).

(** Modelled from the spec: [xxhash.h], which [hash.cc] includes, is missing;
    section 3, "Accumulator set": exactly four unsigned 64-bit lanes. *)
Record accs : Type := Accs { acc1 : Z; acc2 : Z; acc3 : Z; acc4 : Z }.

(** Modelled from the spec: [xxhash.h], which [hash.cc] includes, is missing;
    section 3, "Accumulator set": [acc1 = seed + P1 + P2],
    [acc2 = seed + P2], [acc3 = seed], [acc4 = seed - P1]. *)
Definition init_accs (seed : Z) : accs :=
  {| acc1 := U64.add (U64.add seed P1) P2;
     acc2 := U64.add seed P2;
     acc3 := seed;
     acc4 := U64.sub seed P1 |}.

(** Modelled from the spec: [xxhash.h], which [hash.cc] includes, is missing;
    section 4.1 step 1: one 32-byte stripe, [round] on each of its four
    8-byte lanes against the corresponding accumulator. *)
Definition stripe (v : accs) (p : list byte) : accs :=
  {| acc1 := round (acc1 v) (readLE64 p);
     acc2 := round (acc2 v) (readLE64 (skipn 8 p));
     acc3 := round (acc3 v) (readLE64 (skipn 16 p));
     acc4 := round (acc4 v) (readLE64 (skipn 24 p)) |}.

(** Modelled from the spec: [xxhash.h], which [hash.cc] includes, is missing;
    section 4.1 step 1: [n] stripes in a row; returns the accumulators and
    the unread bytes. *)
Fixpoint consume_stripes (n : nat) (v : accs) (p : list byte)
  : accs * list byte :=
  match n with
  | O => (v, p)
  | S k => consume_stripes k (stripe v p) (skipn 32 p)
  end.

(** Modelled from the spec: [xxhash.h], which [hash.cc] includes, is missing;
    section 4.1 step 1: "repeatedly consume 32-byte stripes ... until fewer
    than 32 bytes remain".  The loop runs once per full stripe. *)
Definition consume (v : accs) (p : list byte) : accs * list byte :=
  consume_stripes (Nat.div (length p) 32) v p.

(** Modelled from the spec: [xxhash.h], which [hash.cc] includes, is missing;
    section 4.1 step 1, "Fold":
    [rotl(acc1,1) + rotl(acc2,7) + rotl(acc3,12) + rotl(acc4,18)], then
    [mergeRound] for each accumulator in turn. *)
Definition merge_accs (v : accs) : Z :=
  let h := U64.add (U64.add (U64.add (U64.rotl (acc1 v) 1)
                                     (U64.rotl (acc2 v) 7))
                            (U64.rotl (acc3 v) 12))
                   (U64.rotl (acc4 v) 18) in
  let h := mergeRound h (acc1 v) in
  let h := mergeRound h (acc2 v) in
  let h := mergeRound h (acc3 v) in
  mergeRound h (acc4 v).

(** Modelled from the spec: [xxhash.h], which [hash.cc] includes, is missing;
    section 3, "Tail bytes", sub-pass 1: 8-byte lanes while at least 8 bytes
    remain. *)
Fixpoint tail_lanes8 (h : Z) (p : list byte) : Z * list byte :=
  match p with
  | b0 :: b1 :: b2 :: b3 :: b4 :: b5 :: b6 :: b7 :: rest =>
      let k1 := round 0 (le_combine [b0; b1; b2; b3; b4; b5; b6; b7]) in
      let h := Z.lxor h k1 in
      tail_lanes8 (U64.add (U64.mul (U64.rotl h 27) P1) P4) rest
  | _ => (h, p)
  end.

(** Modelled from the spec: [xxhash.h], which [hash.cc] includes, is missing;
    section 3, "Tail bytes", sub-pass 2: one 4-byte lane if at least 4 bytes
    remain. *)
Definition tail_lane4 (h : Z) (p : list byte) : Z * list byte :=
  match p with
  | b0 :: b1 :: b2 :: b3 :: rest =>
      let h := Z.lxor h (U64.mul (le_combine [b0; b1; b2; b3]) P1) in
      (U64.add (U64.mul (U64.rotl h 23) P2) P3, rest)
  | _ => (h, p)
  end.

(** Modelled from the spec: [xxhash.h], which [hash.cc] includes, is missing;
    section 3, "Tail bytes", sub-pass 3: the remaining single bytes. *)
Fixpoint tail_bytes (h : Z) (p : list byte) : Z :=
  match p with
  | [] => h
  | b :: rest =>
      let h := Z.lxor h (U64.mul (byte_val b) P5) in
      tail_bytes (U64.mul (U64.rotl h 11) P1) rest
  end.

(** Modelled from the spec: [xxhash.h], which [hash.cc] includes, is missing;
    section 3, "Tail bytes", and section 4.1 step 4: three sub-passes in
    order (8-byte lanes, one 4-byte lane, single bytes), each folded into
    the running hash.  The spec names the passes and their order; the
    rotate amounts and the exact multiplications are those of the xxHash64
    reference algorithm, whose published vectors the spec requires. *)
Definition finalize_tail (h : Z) (p : list byte) : Z :=
  let '(h, p) := tail_lanes8 h p in
  let '(h, p) := tail_lane4 h p in
  tail_bytes h p.

(** Modelled from the spec: [xxhash.h], which [hash.cc] includes, is missing;
    section 4.1, "HashCore", steps 1 to 5.  [seed] is a [uint64_t].  The
    length is added to the hash (sections 4.1 step 3 and 4.2), which is what
    the published vectors of the algorithm require. *)
Definition XXH64 (input : list byte) (seed : Z) : Z :=
  let len := length input in
  let '(h, rest) :=
    if (32 <=? len)%nat then
      let '(v, rest) := consume (init_accs seed) input in
      (merge_accs v, rest)
    else (U64.add seed P5, input) in
  let h := U64.add h (Z.of_nat len) in
  avalanche (finalize_tail h rest).

(** Modelled from the spec: [xxhash.h], which [hash.cc] includes, is missing;
    section 3, "StreamingHasher state": the seed, the four accumulators,
    the buffered tail (0 to 31 bytes) and the 64-bit total length. *)
Record XXH64_state_t : Type := State {
  seed : Z;
  v : accs;
  mem : list byte;
  total_len : Z
}.

(** Modelled from the spec: [xxhash.h], which [hash.cc] includes, is missing;
    section 4.2, [new(seed)] and [reset()]: accumulators initialised from
    the seed, empty tail buffer, total length 0. *)
Definition XXH64_reset (_ : XXH64_state_t) (seed : Z) : XXH64_state_t :=
  {| seed := seed; v := init_accs seed; mem := []; total_len := 0 |}.

(** Modelled from the spec: [xxhash.h], which [hash.cc] includes, is missing;
    [XXH64_createState] allocates a state whose content is set by the
    [XXH64_reset] that the constructor calls right after it. *)
Definition XXH64_createState : XXH64_state_t :=
  {| seed := 0; v := Accs 0 0 0 0; mem := []; total_len := 0 |}.

(** Modelled from the spec: [xxhash.h], which [hash.cc] includes, is missing;
    section 4.2, [update(bytes)]: concatenate the buffered tail with the
    new bytes, consume the full stripes of the combined region, keep what
    remains as the new tail, add [len(bytes)] to the total length. *)
Definition XXH64_update (st : XXH64_state_t) (input : list byte)
  : XXH64_state_t :=
  let '(v', rest) := consume (v st) (mem st ++ input) in
  {| seed := seed st;
     v := v';
     mem := rest;
     total_len := U64.add (total_len st) (Z.of_nat (length input)) |}.

(** Modelled from the spec: [xxhash.h], which [hash.cc] includes, is missing;
    section 4.2, [digest()]: with at least 32 bytes seen, fold the current
    accumulators, add the total length, run the tail sub-passes over the
    buffered tail and avalanche; otherwise hash the buffered tail as
    HashCore would, with the original seed.  The state is only read. *)
Definition XXH64_digest (st : XXH64_state_t) : Z :=
  if 32 <=? total_len st then
    avalanche (finalize_tail (U64.add (merge_accs (v st)) (total_len st))
                             (mem st))
  else XXH64 (mem st) (seed st).

End XXH.

(** ** JavaScript values at the N-API boundary *)
Module Napi.

(** A JavaScript Number is an IEEE-754 double.  Every finite double is a
    dyadic rational; [Finite m e] stands for [m * 2^e].  Only the
    conversion to [int64_t] is needed, and it is exact on this form. *)
Inductive Number : Type :=
| NaN
| Infinity (negative : bool)
| Finite (m e : Z).

(** The values an entry point can be handed or can return.  [Receiver] is
    the object a method was called on ([info.This()]). *)
#[warnings="-register-all"]
Inductive Value : Type :=
| Undefined
| Null
| Boolean (b : bool)
| Num (n : Number)
| BigInt (z : Z)
| Str (s : string)
| Buffer (data : list byte)
| TypedArray (arraybuffer : list byte) (byteOffset byteLength : nat)
| DataView (arraybuffer : list byte) (byteOffset byteLength : nat)
| Array (items : list Value)
| Receiver.

Inductive Error : Type :=
| TypeError (message : string).

(** What the JavaScript caller observes: a returned value, or a pending
    exception raised with [ThrowAsJavaScriptException]. *)
Inductive Completion : Type :=
| Return (v : Value)
| Throw (e : Error).

(** [Napi::CallbackInfo]: [info.Length()] is [length info] and [info[i]]
    is [Undefined] past the last argument. *)
Definition CallbackInfo : Type := list Value.

Definition arg (info : CallbackInfo) (i : nat) : Value :=
  nth i info Undefined.

(** [Napi::Value::IsBuffer] ([napi_is_buffer]) holds of every view of an
    [ArrayBuffer]: a Node.js [Buffer], a typed array and a [DataView]. *)
Definition IsBuffer (x : Value) : bool :=
  match x with
  | Buffer _ | TypedArray _ _ _ | DataView _ _ _ => true
  | _ => false
  end.

(** [Napi::Value::IsTypedArray]: a typed array; a Node.js [Buffer] is a
    [Uint8Array], hence a typed array too; a [DataView] is not. *)
Definition IsTypedArray (x : Value) : bool :=
  match x with Buffer _ | TypedArray _ _ _ => true | _ => false end.

(** The bytes between [byteOffset] and [byteOffset + byteLength] of an
    [ArrayBuffer]. *)
Definition window (arraybuffer : list byte) (byteOffset byteLength : nat)
  : list byte :=
  firstn byteLength (skipn byteOffset arraybuffer).

(** [x.As<Napi::Buffer<uint8_t>>()] read through [Data()] and [Length()]
    ([napi_get_buffer_info]): the bytes the view covers. *)
Definition Buffer_Data (x : Value) : list byte :=
  match x with
  | Buffer data => data
  | TypedArray arraybuffer byteOffset byteLength
  | DataView arraybuffer byteOffset byteLength =>
      window arraybuffer byteOffset byteLength
  | _ => []
  end.

(** [x.As<Napi::TypedArray>()] read through
    [ArrayBuffer().Data() + ByteOffset()] and [ByteLength()]. *)
Definition TypedArray_Data (x : Value) : list byte :=
  match x with
  | Buffer data => data
  | TypedArray arraybuffer byteOffset byteLength =>
      window arraybuffer byteOffset byteLength
  | _ => []
  end.

Definition IsBigInt (x : Value) : bool :=
  match x with BigInt _ => true | _ => false end.

Definition IsNumber (x : Value) : bool :=
  match x with Num _ => true | _ => false end.

Definition IsArray (x : Value) : bool :=
  match x with Array _ => true | _ => false end.

Definition INT64_MAX : Z := 2 ^ 63 - 1.
Definition INT64_MIN : Z := - 2 ^ 63.

(** The double rounded toward zero. *)
Definition truncate (m e : Z) : Z :=
  if 0 <=? e then m * 2 ^ e else Z.quot m (2 ^ (- e)).

(** [Napi::Number::Int64Value] ([napi_get_value_int64]): a non-finite
    number gives 0; a finite one is rounded toward zero and saturates at
    the bounds of [int64_t]. *)
Definition Int64Value (n : Number) : Z :=
  match n with
  | NaN | Infinity _ => 0
  | Finite m e =>
      let t := truncate m e in
      if INT64_MAX <=? t then INT64_MAX
      else if t <=? INT64_MIN then INT64_MIN
      else t
  end.

(** [Napi::BigInt::Uint64Value]: the low 64 bits of the integer; the
    [lossless] flag is written and never read by the callers. *)
Definition Uint64Value (z : Z) : Z := U64.wrap z.

(** [static_cast<uint64_t>] of an [int64_t]. *)
Definition uint64_of_int64 (i : Z) : Z := U64.wrap i.

(** [static_cast<uint32_t>(hash & 0xFFFFFFFF)]. *)
Definition low32 (hash : Z) : Z := (Z.land hash 0xFFFFFFFF) mod 2 ^ 32.

(** [Napi::Number::New] on an integer that a double holds exactly. *)
Definition Number_New (x : Z) : Value := Num (Finite x 0).

Definition BigInt_New (x : Z) : Value := BigInt x.

Definition As_BigInt (x : Value) : Z :=
  match x with BigInt z => z | _ => 0 end.

Definition As_Number (x : Value) : Number :=
  match x with Num n => n | _ => NaN end.

Definition As_Array (x : Value) : list Value :=
  match x with Array items => items | _ => [] end.

(** [Napi::Array::Get]. *)
Definition Array_Get (a : list Value) (i : nat) : Value :=
  nth i a Undefined.

(** [Napi::Array::Set]: stores at index [i]; an index past the end grows
    the array, leaving the slots in between undefined. *)
Fixpoint Array_Set (a : list Value) (i : nat) (x : Value) : list Value :=
  match i, a with
  | O, [] => [x]
  | O, _ :: t => x :: t
  | S k, [] => Undefined :: Array_Set [] k x
  | S k, y :: t => y :: Array_Set t k x
  end.

(** [Napi::Array::New(env, count)]. *)
Definition Array_New (count : nat) : list Value := repeat Undefined count.

End Napi.

(** ** The entry points of [hash.cc] *)
Import XXH Napi.

(** The "get buffer data" block that follows every type check:
    [if (x.IsBuffer())] the data and length of the buffer, [else] the
    window [ByteOffset, ByteOffset + ByteLength) of the [ArrayBuffer]
    behind the typed array. *)
Definition buffer_data (x : Value) : list byte :=
  if IsBuffer x then Buffer_Data x else TypedArray_Data x.

(** The "optional seed" block of [XxHash64], [XxHash64Batch] and the
    constructor of [XxHash64State]; [i] is the position of the seed. *)
Definition seed_BigInt_or_Number (info : CallbackInfo) (i : nat) : Z :=
  if (i <? length info)%nat && IsBigInt (arg info i) then
    Uint64Value (As_BigInt (arg info i))
  else if (i <? length info)%nat && IsNumber (arg info i) then
    uint64_of_int64 (Int64Value (As_Number (arg info i)))
  else 0.

(** The "optional seed" block of [XxHash64AsNumber] and
    [XxHash64BatchAsNumbers]: only a Number is looked at. *)
Definition seed_Number (info : CallbackInfo) (i : nat) : Z :=
  if (i <? length info)%nat && IsNumber (arg info i) then
    uint64_of_int64 (Int64Value (As_Number (arg info i)))
  else 0.

Definition XxHash64 (info : CallbackInfo) : Completion :=
  if (length info <? 1)%nat then
    Throw (TypeError "Expected at least 1 argument"%string)
  else if negb (IsBuffer (arg info 0)) && negb (IsTypedArray (arg info 0)) then
    Throw (TypeError "Expected Buffer or TypedArray"%string)
  else
    let data := buffer_data (arg info 0) in
    let seed := seed_BigInt_or_Number info 1 in
    let hash := XXH64 data seed in
    Return (BigInt_New hash).

Definition XxHash64AsNumber (info : CallbackInfo) : Completion :=
  if (length info <? 1)%nat
     || (negb (IsBuffer (arg info 0)) && negb (IsTypedArray (arg info 0))) then
    Throw (TypeError "Expected Buffer or TypedArray"%string)
  else
    let data := buffer_data (arg info 0) in
    let seed := seed_Number info 1 in
    let hash := XXH64 data seed in
    Return (Number_New (low32 hash)).

(** The body of the loop of [XxHash64Batch]. *)
Definition batch_item (seed : Z) (item : Value) : Value :=
  if negb (IsBuffer item) && negb (IsTypedArray item) then BigInt_New 0
  else BigInt_New (XXH64 (buffer_data item) seed).

Definition XxHash64Batch (info : CallbackInfo) : Completion :=
  if negb (IsArray (arg info 0)) then
    Throw (TypeError "Expected Array of Buffers"%string)
  else
    let buffers := As_Array (arg info 0) in
    (* [uint32_t count]: a JavaScript array has fewer than 2^32 elements *)
    let count := length buffers in
    let seed := seed_BigInt_or_Number info 1 in
    let results :=
      fold_left
        (fun results i => Array_Set results i (batch_item seed (Array_Get buffers i)))
        (seq 0 count) (Array_New count) in
    Return (Array results).

(** The body of the loop of [XxHash64BatchAsNumbers]. *)
Definition batch_item_number (seed : Z) (item : Value) : Value :=
  if negb (IsBuffer item) && negb (IsTypedArray item) then Number_New 0
  else Number_New (low32 (XXH64 (buffer_data item) seed)).

Definition XxHash64BatchAsNumbers (info : CallbackInfo) : Completion :=
  if negb (IsArray (arg info 0)) then
    Throw (TypeError "Expected Array of Buffers"%string)
  else
    let buffers := As_Array (arg info 0) in
    let count := length buffers in
    let seed := seed_Number info 1 in
    let results :=
      fold_left
        (fun results i =>
           Array_Set results i (batch_item_number seed (Array_Get buffers i)))
        (seq 0 count) (Array_New count) in
    Return (Array results).

(** *** The streaming class

    An instance owns its [state_] and remembers its [seed_].  A method maps
    the instance before the call to the instance after it and to what the
    caller observes. *)
Module XxHash64State.

Record t : Type := Instance {
  state_ : XXH64_state_t;
  seed_ : Z
}.

Definition new (info : CallbackInfo) : t :=
  let seed_ := seed_BigInt_or_Number info 0 in
  {| state_ := XXH64_reset XXH64_createState seed_; seed_ := seed_ |}.

Definition Update (self : t) (info : CallbackInfo) : t * Completion :=
  if negb (IsBuffer (arg info 0)) && negb (IsTypedArray (arg info 0)) then
    (self, Throw (TypeError "Expected Buffer or TypedArray"%string))
  else
    let data := buffer_data (arg info 0) in
    ({| state_ := XXH64_update (state_ self) data; seed_ := seed_ self |},
     Return Receiver).

Definition Digest (self : t) (info : CallbackInfo) : t * Completion :=
  let hash := XXH64_digest (state_ self) in
  (self, Return (BigInt_New hash)).

Definition DigestAsNumber (self : t) (info : CallbackInfo) : t * Completion :=
  let hash := XXH64_digest (state_ self) in
  (self, Return (Number_New (low32 hash))).

Definition Reset (self : t) (info : CallbackInfo) : t * Completion :=
  ({| state_ := XXH64_reset (state_ self) (seed_ self); seed_ := seed_ self |},
   Return Receiver).

End XxHash64State.

(** ** Auxiliary definitions used by the statements *)

Import XxHash64State.

(** A value the entry points take bytes from, that is, one that passes the
    guard [IsBuffer() || IsTypedArray()]: a Buffer, a typed array or a
    DataView. *)
Definition byte_bearing (x : Value) : bool := IsBuffer x || IsTypedArray x.

(** [update] called once per chunk, in order. *)
Definition feed (h : t) (chunks : list Value) : t :=
  fold_left (fun h c => fst (Update h [c])) chunks h.

(** [state_after seed B] is the state a hasher created with [seed] is in
    once the bytes [B] have been fed to it, in whatever pieces. *)
Definition state_after (seed : Z) (B : list byte) : XXH64_state_t :=
  {| XXH.seed := seed;
     v := fst (consume (init_accs seed) B);
     mem := snd (consume (init_accs seed) B);
     total_len := U64.wrap (Z.of_nat (length B)) |}.


(** ASCII text as bytes, for the examples. *)
Definition sample_bytes : list byte :=
  list_byte_of_string "Nobody inspects the spammish repetition".

(** The same 39 bytes in two pieces, the second one a window of a larger
    [ArrayBuffer]; the cut is at offset 20 and the data crosses the first
    32-byte boundary. *)
Definition sample_chunks : list Value :=
  [ Buffer (list_byte_of_string "Nobody inspects the ");
    TypedArray (list_byte_of_string "..spammish repetition..") 2 19 ].

(** A batch whose middle element carries no bytes. *)
Definition sample_mixed : list Value :=
  [ Buffer sample_bytes; Str "not bytes"; Buffer [] ].

(** The calls JavaScript can make on an instance. *)
Inductive call : Type :=
| CallUpdate (info : CallbackInfo)
| CallDigest (info : CallbackInfo)
| CallDigestAsNumber (info : CallbackInfo)
| CallReset (info : CallbackInfo).

Definition invoke (h : XxHash64State.t) (c : call)
  : XxHash64State.t * Completion :=
  match c with
  | CallUpdate info => XxHash64State.Update h info
  | CallDigest info => XxHash64State.Digest h info
  | CallDigestAsNumber info => XxHash64State.DigestAsNumber h info
  | CallReset info => XxHash64State.Reset h info
  end.

(** A sequence of calls in which some [digest] calls are marked as extra. *)
Inductive step : Type :=
| ExtraDigest (info : CallbackInfo)
| Do (c : call).

(** Runs the calls in order and collects what the [Do] calls answer.  With
    [extras = true] the extra [digest] calls are made too; with
    [extras = false] they are left out. *)
Fixpoint run (extras : bool) (h : XxHash64State.t) (s : list step)
  : XxHash64State.t * list Completion :=
  match s with
  | [] => (h, [])
  | ExtraDigest info :: s' =>
      run extras (if extras then fst (XxHash64State.Digest h info) else h) s'
  | Do c :: s' =>
      let '(h', r) := invoke h c in
      let '(h'', rs) := run extras h' s' in
      (h'', r :: rs)
  end.

(** The instance after a sequence of calls, whatever they answered. *)
Definition after (h : XxHash64State.t) (cs : list call) : XxHash64State.t :=
  fold_left (fun h c => fst (invoke h c)) cs h.

(** What one call does to the bytes an instance has taken in since it was
    constructed or last reset: an [update] on a byte-bearing argument
    appends its bytes, a [reset] forgets everything, any other call (a
    refused [update] included) changes nothing. *)
Definition history_step (B : list byte) (c : call) : list byte :=
  match c with
  | CallUpdate info =>
      if byte_bearing (arg info 0) then B ++ buffer_data (arg info 0) else B
  | CallReset _ => []
  | CallDigest _ | CallDigestAsNumber _ => B
  end.

Definition history (cs : list call) : list byte :=
  fold_left history_step cs [].

(** A returned BigInt that fits 64 unsigned bits. *)
Definition uint64_BigInt (x : Value) : Prop :=
  exists hash, x = BigInt hash /\ 0 <= hash < 2 ^ 64.

(** A returned Number that is an integer fitting 32 unsigned bits. *)
Definition uint32_Number (x : Value) : Prop :=
  exists n, x = Num (Finite n 0) /\ 0 <= n < 2 ^ 32.

(** A script that mixes accepted and refused updates, digests and a
    reset. *)
Definition sample_calls : list call :=
  [ CallUpdate [Buffer (list_byte_of_string "discarded by the reset")];
    CallDigest [];
    CallReset [];
    CallUpdate [Buffer (list_byte_of_string "Nobody inspects the ")];
    CallUpdate [Str "not bytes"];
    CallDigestAsNumber [];
    CallUpdate [TypedArray (list_byte_of_string "..spammish repetition..") 2 19] ].

(** * Properties *)

Local Open Scope Z_scope.

(** ** Arithmetic of 64-bit words *)

Lemma wrap_add_l (a b : Z) : U64.add (U64.wrap a) b = U64.wrap (a + b).
Proof. unfold U64.add, U64.wrap. apply Z.add_mod_idemp_l. discriminate. Qed.

Lemma wrap_small (a : Z) : 0 <= a < 2 ^ 64 -> U64.wrap a = a.
Proof. intros H. unfold U64.wrap, U64.modulus. apply Z.mod_small. exact H. Qed.

Lemma wrap_wrap (a : Z) : U64.wrap (U64.wrap a) = U64.wrap a.
Proof. unfold U64.wrap. apply Z.mod_mod. discriminate. Qed.

(** ** Stripe consumption *)

Lemma readLE64_app (p q : list byte) :
  (8 <= length p)%nat -> readLE64 (p ++ q) = readLE64 p.
Proof.
  intros H. unfold readLE64. rewrite firstn_app.
  replace (8 - length p)%nat with 0%nat by lia.
  simpl. now rewrite app_nil_r.
Qed.

Lemma skipn_app_long (n : nat) (p q : list byte) :
  (n <= length p)%nat -> skipn n (p ++ q) = skipn n p ++ q.
Proof.
  intros H. rewrite skipn_app.
  replace (n - length p)%nat with 0%nat by lia. reflexivity.
Qed.

Lemma stripe_app (a : accs) (p q : list byte) :
  (32 <= length p)%nat -> stripe a (p ++ q) = stripe a p.
Proof.
  intros H. unfold stripe.
  rewrite !skipn_app_long by lia.
  rewrite !readLE64_app by (rewrite ?length_skipn; lia).
  reflexivity.
Qed.

Lemma consume_short (a : accs) (p : list byte) :
  (length p < 32)%nat -> consume a p = (a, p).
Proof.
  intros H. unfold consume. rewrite Nat.div_small by exact H. reflexivity.
Qed.

Lemma consume_step (a : accs) (p : list byte) :
  (32 <= length p)%nat -> consume a p = consume (stripe a p) (skipn 32 p).
Proof.
  intros H. unfold consume. rewrite length_skipn.
  replace (length p) with (1 * 32 + (length p - 32))%nat at 1 by lia.
  rewrite Nat.div_add_l by discriminate. reflexivity.
Qed.

(** Consuming a region in two pieces: what the first piece leaves unread is
    put in front of the second piece. *)
Lemma consume_app (q : list byte) :
  forall (n : nat) (p : list byte) (a : accs),
    (length p <= n)%nat ->
    consume a (p ++ q) =
    consume (fst (consume a p)) (snd (consume a p) ++ q).
Proof.
  induction n as [| n IH]; intros p a Hn.
  - rewrite (consume_short a p) by lia. reflexivity.
  - destruct (Nat.lt_ge_cases (length p) 32) as [Hs | Hl].
    + rewrite (consume_short a p) by exact Hs. reflexivity.
    + rewrite (consume_step a p) by exact Hl.
      rewrite (consume_step a (p ++ q)) by (rewrite length_app; lia).
      rewrite stripe_app by exact Hl.
      rewrite skipn_app_long by lia.
      apply IH. rewrite length_skipn. lia.
Qed.

Lemma update_state_after (seed : Z) (B c : list byte) :
  XXH64_update (state_after seed B) c = state_after seed (B ++ c).
Proof.
  unfold XXH64_update, state_after. cbn [XXH.seed v mem total_len].
  rewrite (consume_app c (length B) B) by lia.
  destruct (consume (fst (consume (init_accs seed) B))
                    (snd (consume (init_accs seed) B) ++ c)) as [a r].
  cbn [fst snd]. f_equal.
  rewrite wrap_add_l, length_app. f_equal. lia.
Qed.

Lemma digest_state_after (seed : Z) (B : list byte) :
  Z.of_nat (length B) < 2 ^ 64 ->
  XXH64_digest (state_after seed B) = XXH64 B seed.
Proof.
  intros Hlen. unfold XXH64_digest, state_after.
  cbn [XXH.seed v mem total_len].
  rewrite wrap_small by (split; [apply Nat2Z.is_nonneg | exact Hlen]).
  unfold XXH64 at 2.
  destruct (consume (init_accs seed) B) as [a r] eqn:E. cbn [fst snd].
  destruct (Z.leb_spec 32 (Z.of_nat (length B))) as [Hl | Hs].
  - destruct (Nat.leb_spec 32 (length B)) as [_ | Hn];
      [reflexivity | clear Hlen; lia].
  - assert (Hn : (length B < 32)%nat) by (clear Hlen; lia).
    rewrite (consume_short _ _ Hn) in E. inversion E; subst a r.
    unfold XXH64.
    destruct (Nat.leb_spec 32 (length B)) as [Hge | _];
      [clear Hlen; lia | reflexivity].
Qed.

(** ** Byte-bearing values and the entry points applied to them *)

Lemma type_check_byte_bearing (x : Value) :
  negb (IsBuffer x) && negb (IsTypedArray x) = negb (byte_bearing x).
Proof. unfold byte_bearing. now rewrite negb_orb. Qed.

(** The guard accepts exactly the views of an [ArrayBuffer]. *)
Lemma byte_bearing_views (x : Value) :
  byte_bearing x
  = match x with
    | Buffer _ | TypedArray _ _ _ | DataView _ _ _ => true
    | _ => false
    end.
Proof. destruct x; reflexivity. Qed.

(** The seed is looked up by position only: what stands before it does not
    matter. *)
Lemma seed_BigInt_or_Number_shift (x : Value) (seedargs : CallbackInfo) :
  seed_BigInt_or_Number (x :: seedargs) 1 = seed_BigInt_or_Number seedargs 0.
Proof. reflexivity. Qed.

Lemma seed_Number_shift (x : Value) (seedargs : CallbackInfo) :
  seed_Number (x :: seedargs) 1 = seed_Number seedargs 0.
Proof. reflexivity. Qed.

Lemma XxHash64_byte_bearing (x : Value) (seedargs : CallbackInfo) :
  byte_bearing x = true ->
  XxHash64 (x :: seedargs)
  = Return (BigInt (XXH64 (buffer_data x) (seed_BigInt_or_Number seedargs 0))).
Proof.
  intros Hx. unfold XxHash64. cbn [length Nat.ltb Nat.leb arg nth].
  rewrite type_check_byte_bearing, Hx. reflexivity.
Qed.

Lemma XxHash64AsNumber_byte_bearing (x : Value) (seedargs : CallbackInfo) :
  byte_bearing x = true ->
  XxHash64AsNumber (x :: seedargs)
  = Return (Number_New (low32 (XXH64 (buffer_data x) (seed_Number seedargs 0)))).
Proof.
  intros Hx. unfold XxHash64AsNumber. cbn [length Nat.ltb Nat.leb arg nth orb].
  rewrite type_check_byte_bearing, Hx. reflexivity.
Qed.

Lemma Update_byte_bearing (h : t) (x : Value) (rest : CallbackInfo) :
  byte_bearing x = true ->
  Update h (x :: rest)
  = ({| state_ := XXH64_update (state_ h) (buffer_data x); seed_ := seed_ h |},
     Return Receiver).
Proof.
  intros Hx. unfold Update. cbn [arg nth].
  rewrite type_check_byte_bearing, Hx. reflexivity.
Qed.


Lemma Update_seed (h : t) (info : CallbackInfo) :
  seed_ (fst (Update h info)) = seed_ h.
Proof.
  unfold Update.
  destruct (negb (IsBuffer (arg info 0)) && negb (IsTypedArray (arg info 0)));
    reflexivity.
Qed.

Lemma feed_seed (chunks : list Value) :
  forall h : t, seed_ (feed h chunks) = seed_ h.
Proof.
  induction chunks as [| c chunks IH]; intros h; cbn [feed fold_left].
  - reflexivity.
  - fold (feed (fst (Update h [c])) chunks). now rewrite IH, Update_seed.
Qed.

Lemma feed_state_after (s : Z) (chunks : list Value) :
  Forall (fun c => byte_bearing c = true) chunks ->
  forall B : list byte,
    feed {| state_ := state_after s B; seed_ := s |} chunks
    = {| state_ := state_after s (B ++ concat (map buffer_data chunks));
         seed_ := s |}.
Proof.
  induction 1 as [| c chunks Hc _ IH]; intros B; cbn [feed fold_left map concat].
  - now rewrite app_nil_r.
  - rewrite Update_byte_bearing by exact Hc. cbn [fst state_ seed_].
    rewrite update_state_after. fold (feed {| state_ := state_after s (B ++ buffer_data c); seed_ := s |} chunks).
    rewrite IH, app_assoc. reflexivity.
Qed.

Lemma new_state_after (seedargs : CallbackInfo) :
  new seedargs
  = {| state_ := state_after (seed_BigInt_or_Number seedargs 0) [];
       seed_ := seed_BigInt_or_Number seedargs 0 |}.
Proof. reflexivity. Qed.

(** ** The batch loop *)

Lemma Array_Set_middle (pre post : list Value) (y x : Value) :
  Array_Set (pre ++ y :: post) (length pre) x = pre ++ x :: post.
Proof.
  induction pre as [| z pre IH]; cbn [app length Array_Set].
  - reflexivity.
  - now rewrite IH.
Qed.

Lemma batch_loop_from (f : Value -> Value) :
  forall (todo done pre : list Value),
    length pre = length done ->
    fold_left
      (fun results i =>
         Array_Set results i (f (Array_Get (done ++ todo) i)))
      (seq (length pre) (length todo))
      (pre ++ Array_New (length todo))
    = pre ++ map f todo.
Proof.
  unfold Array_Get.
  induction todo as [| x todo IH]; intros done pre Hlen;
    cbn [length seq fold_left map Array_New repeat].
  - reflexivity.
  - rewrite Array_Set_middle, Hlen, nth_middle.
    replace (pre ++ f x :: repeat Undefined (length todo))
      with ((pre ++ [f x]) ++ Array_New (length todo))
      by (now rewrite <- app_assoc).
    replace (S (length done)) with (length (pre ++ [f x]))
      by (rewrite length_app; cbn [length]; lia).
    replace (done ++ x :: todo) with ((done ++ [x]) ++ todo)
      by (now rewrite <- app_assoc).
    rewrite (IH (done ++ [x]) (pre ++ [f x]))
      by (rewrite !length_app; cbn [length]; lia).
    now rewrite <- app_assoc.
Qed.

Lemma batch_loop (f : Value -> Value) (buffers : list Value) :
  fold_left
    (fun results i => Array_Set results i (f (Array_Get buffers i)))
    (seq 0 (length buffers)) (Array_New (length buffers))
  = map f buffers.
Proof. exact (batch_loop_from f buffers [] [] eq_refl). Qed.

Lemma XxHash64Batch_map (items : list Value) (seedargs : CallbackInfo) :
  XxHash64Batch (Array items :: seedargs)
  = Return (Array (map (batch_item (seed_BigInt_or_Number seedargs 0)) items)).
Proof.
  unfold XxHash64Batch. cbn [arg nth IsArray negb As_Array].
  rewrite seed_BigInt_or_Number_shift, batch_loop. reflexivity.
Qed.

Lemma XxHash64BatchAsNumbers_map (items : list Value) (seedargs : CallbackInfo) :
  XxHash64BatchAsNumbers (Array items :: seedargs)
  = Return (Array (map (batch_item_number (seed_Number seedargs 0)) items)).
Proof.
  unfold XxHash64BatchAsNumbers. cbn [arg nth IsArray negb As_Array].
  rewrite seed_Number_shift, batch_loop. reflexivity.
Qed.

(** ** Streaming *)

(** C1: for every byte buffer [B], every seed argument and every way of
    cutting [B] into consecutive chunks (none, one, one per byte, across
    32-byte boundaries), a hasher constructed with that seed and updated
    with the chunks in order digests to exactly the value the one-shot
    [xxhash64] returns for [B] with the same seed.  [B] is a buffer the
    one-shot entry point can be handed, so its length fits [size_t]. *)
Theorem streaming_digest_eq_one_shot
    (seedargs : CallbackInfo) (chunks : list Value) (B : list byte) :
  Forall (fun c => byte_bearing c = true) chunks ->
  concat (map buffer_data chunks) = B ->
  Z.of_nat (length B) < 2 ^ 64 ->
  snd (Digest (feed (new seedargs) chunks) []) = XxHash64 (Buffer B :: seedargs).
Proof.
  intros Hchunks HB Hlen.
  rewrite new_state_after, (feed_state_after _ chunks Hchunks), HB.
  cbn [app]. unfold Digest. cbn [snd state_].
  rewrite digest_state_after by exact Hlen.
  rewrite XxHash64_byte_bearing by reflexivity.
  reflexivity.
Qed.

Lemma streaming_digest_eq_one_shot_witness :
  snd (Digest (feed (new [BigInt 7]) sample_chunks) [])
  = XxHash64 (Buffer sample_bytes :: [BigInt 7]).
Proof.
  apply (streaming_digest_eq_one_shot [BigInt 7] sample_chunks sample_bytes).
  - repeat constructor.
  - reflexivity.
  - reflexivity.
Defined.

(** C7: whatever a hasher constructed with a given seed has been fed,
    [reset] puts it back in the state the constructor produced, seed
    included; a following [update(Y)] and [digest] then give the one-shot
    hash of [Y] with that seed. *)
Theorem reset_then_update_digest
    (seedargs : CallbackInfo) (Xs : list Value) (Y : Value) :
  byte_bearing Y = true ->
  Z.of_nat (length (buffer_data Y)) < 2 ^ 64 ->
  let h0 := new seedargs in
  let h1 := feed h0 Xs in
  let h2 := fst (Reset h1 []) in
  h2 = h0
  /\ seed_ h2 = seed_ h0
  /\ snd (Digest (fst (Update h2 [Y])) []) = XxHash64 (Y :: seedargs).
Proof.
  intros HY Hlen h0 h1 h2.
  assert (E : h2 = h0).
  { subst h2 h1. unfold Reset. cbn [fst]. rewrite feed_seed. reflexivity. }
  rewrite E. repeat split.
  subst h0. rewrite new_state_after, Update_byte_bearing by exact HY.
  cbn [fst state_ seed_]. rewrite update_state_after. cbn [app].
  unfold Digest. cbn [snd state_].
  rewrite digest_state_after by exact Hlen.
  rewrite XxHash64_byte_bearing by exact HY. reflexivity.
Qed.

Lemma reset_then_update_digest_witness :
  let h2 := fst (Reset (feed (new [BigInt 7]) sample_chunks) []) in
  h2 = new [BigInt 7]
  /\ seed_ h2 = seed_ (new [BigInt 7])
  /\ snd (Digest (fst (Update h2 [Buffer sample_bytes])) [])
     = XxHash64 (Buffer sample_bytes :: [BigInt 7]).
Proof.
  apply (reset_then_update_digest [BigInt 7] sample_chunks (Buffer sample_bytes)).
  - reflexivity.
  - reflexivity.
Defined.

(** C8: [digest] leaves the instance (seed, accumulators, buffered tail,
    total length) exactly as it found it; a second [digest] right after the
    first returns the same value; and a sequence of calls in which extra
    [digest] calls are interleaved ends in the same state and answers every
    other call in the same way as the sequence without them. *)
Theorem digest_does_not_mutate
    (h : t) (info info' : CallbackInfo) (s : list step) :
  fst (Digest h info) = h
  /\ snd (Digest (fst (Digest h info)) info') = snd (Digest h info)
  /\ run true h s = run false h s.
Proof.
  split; [reflexivity |]. split; [reflexivity |].
  revert h. induction s as [| [extra | c] s IH]; intros h; cbn [run].
  - reflexivity.
  - cbn [fst Digest]. apply IH.
  - destruct (invoke h c) as [h' r]. now rewrite IH.
Qed.

(** ** Errors *)




(** ** Known values *)

(** C2, as the code has it: for every seed the hash of the empty input is
    [avalanche (seed + P5)]; it is [0xEF46DB3751D8E999] at seed 0 and
    [0xD5AFBA1336A3BE4B] at seed 1. *)
Theorem empty_input_hash (seed : Z) :
  XXH64 [] seed = avalanche (U64.add seed P5)
  /\ XXH64 [] 0 = 0xEF46DB3751D8E999
  /\ XXH64 [] 1 = 0xD5AFBA1336A3BE4B.
Proof.
  split; [| split; reflexivity].
  unfold XXH64. cbn [length Nat.leb finalize_tail tail_lanes8 tail_lane4
                     tail_bytes Z.of_nat].
  unfold U64.add at 1. rewrite Z.add_0_r.
  unfold U64.add. fold (U64.wrap (seed + P5)). now rewrite wrap_wrap.
Qed.

(** C2, as the claim has it, fails at seed 1: the hash of the empty input
    is not [0x9C4E3EA93DFA0FAB] there, and that value is not
    [avalanche (1 + P5)] either. *)
Lemma empty_input_seed_1_vector_wrong :
  XXH64 [] 1 <> 0x9C4E3EA93DFA0FAB
  /\ avalanche (U64.add 1 P5) <> 0x9C4E3EA93DFA0FAB.
Proof. split; vm_compute; discriminate. Qed.

(** ** Truncated results *)

Lemma low32_mod (hash : Z) : low32 hash = hash mod 2 ^ 32.
Proof.
  unfold low32. change 0xFFFFFFFF with (Z.ones 32).
  rewrite Z.land_ones by discriminate. apply Z.mod_mod. discriminate.
Qed.

Lemma seed_Number_eq (seedargs : CallbackInfo) :
  IsBigInt (arg seedargs 0) = false ->
  seed_Number seedargs 0 = seed_BigInt_or_Number seedargs 0.
Proof.
  intros H. unfold seed_Number, seed_BigInt_or_Number.
  now rewrite H, andb_false_r.
Qed.

(** C3: on a byte-bearing first argument and a seed argument both entry
    points look at (anything but a BigInt, which [xxhash64AsNumber] does
    not read), [xxhash64AsNumber] returns the low 32 bits of the value
    [xxhash64] returns; and on any instance [digestAsNumber] returns the low
    32 bits of what [digest] returns, both leaving the instance as it is. *)
Theorem truncated_is_low32_of_full
    (x : Value) (seedargs : CallbackInfo) (h : t) :
  byte_bearing x = true ->
  IsBigInt (arg seedargs 0) = false ->
  (exists hash,
      XxHash64 (x :: seedargs) = Return (BigInt hash)
      /\ XxHash64AsNumber (x :: seedargs)
         = Return (Num (Finite (hash mod 2 ^ 32) 0)))
  /\ (exists hash,
         Digest h [] = (h, Return (BigInt hash))
         /\ DigestAsNumber h [] = (h, Return (Num (Finite (hash mod 2 ^ 32) 0)))).
Proof.
  intros Hx Hseed. split.
  - exists (XXH64 (buffer_data x) (seed_BigInt_or_Number seedargs 0)).
    rewrite XxHash64_byte_bearing, XxHash64AsNumber_byte_bearing by exact Hx.
    rewrite seed_Number_eq by exact Hseed.
    unfold Number_New. now rewrite low32_mod.
  - exists (XXH64_digest (state_ h)).
    unfold Digest, DigestAsNumber, Number_New. now rewrite low32_mod.
Qed.

Lemma truncated_is_low32_of_full_witness :
  (exists hash,
      XxHash64 [Buffer sample_bytes; Num (Finite 7 0)] = Return (BigInt hash)
      /\ XxHash64AsNumber [Buffer sample_bytes; Num (Finite 7 0)]
         = Return (Num (Finite (hash mod 2 ^ 32) 0)))
  /\ (exists hash,
         Digest (feed (new [BigInt 7]) sample_chunks) []
         = (feed (new [BigInt 7]) sample_chunks, Return (BigInt hash))
         /\ DigestAsNumber (feed (new [BigInt 7]) sample_chunks) []
            = (feed (new [BigInt 7]) sample_chunks,
               Return (Num (Finite (hash mod 2 ^ 32) 0)))).
Proof.
  apply (truncated_is_low32_of_full (Buffer sample_bytes) [Num (Finite 7 0)]
           (feed (new [BigInt 7]) sample_chunks)).
  - reflexivity.
  - reflexivity.
Defined.

(** ** Batches *)

Lemma nth_map_Undefined (f : Value -> Value) (items : list Value) (i : nat) :
  (i < length items)%nat ->
  nth i (map f items) Undefined = f (nth i items Undefined).
Proof.
  intros Hi. rewrite (nth_indep _ Undefined (f Undefined))
    by (now rewrite length_map).
  apply map_nth.
Qed.

Lemma batch_item_byte_bearing (x : Value) (seedargs : CallbackInfo) :
  byte_bearing x = true ->
  Return (batch_item (seed_BigInt_or_Number seedargs 0) x)
  = XxHash64 (x :: seedargs).
Proof.
  intros Hx. rewrite XxHash64_byte_bearing by exact Hx.
  unfold batch_item. rewrite type_check_byte_bearing, Hx. reflexivity.
Qed.


(** C5: for an array of [N] byte-bearing values and one seed argument,
    [xxhash64Batch] returns an array of [N] results, and the result at each
    index [i] is what the one-shot [xxhash64] returns for the [i]-th input
    with that seed. *)
Theorem batch_matches_one_shot
    (items : list Value) (seedargs : CallbackInfo) (i : nat) :
  Forall (fun x => byte_bearing x = true) items ->
  (i < length items)%nat ->
  exists results,
    XxHash64Batch (Array items :: seedargs) = Return (Array results)
    /\ length results = length items
    /\ Return (nth i results Undefined)
       = XxHash64 (nth i items Undefined :: seedargs).
Proof.
  intros Hall Hi. eexists. split; [apply XxHash64Batch_map |].
  split; [apply length_map |].
  rewrite nth_map_Undefined by exact Hi.
  apply batch_item_byte_bearing.
  rewrite Forall_forall in Hall. apply Hall, nth_In, Hi.
Qed.

Lemma batch_matches_one_shot_witness :
  exists results,
    XxHash64Batch (Array sample_chunks :: [BigInt 7]) = Return (Array results)
    /\ length results = length sample_chunks
    /\ Return (nth 1 results Undefined)
       = XxHash64 (nth 1 sample_chunks Undefined :: [BigInt 7]).
Proof.
  apply (batch_matches_one_shot sample_chunks [BigInt 7] 1).
  - repeat constructor.
  - repeat constructor.
Defined.




(** ** Seeds *)

Ltac split_all := repeat match goal with |- _ /\ _ => split end.

Ltac rewrite_entry_points :=
  rewrite ?XxHash64Batch_map, ?XxHash64BatchAsNumbers_map;
  rewrite ?XxHash64_byte_bearing by reflexivity;
  rewrite ?XxHash64AsNumber_byte_bearing by reflexivity.


Lemma Int64Value_in_range (m e : Z) :
  INT64_MIN <= truncate m e <= INT64_MAX ->
  Int64Value (Finite m e) = truncate m e.
Proof.
  intros [Hlo Hhi]. cbn [Int64Value].
  destruct (Z.leb_spec INT64_MAX (truncate m e)) as [Hmax | _].
  - apply Z.le_antisymm; assumption.
  - destruct (Z.leb_spec (truncate m e) INT64_MIN) as [Hmin | _].
    + apply Z.le_antisymm; assumption.
    + reflexivity.
Qed.

Lemma truncate_integer (n : Z) : truncate n 0 = n.
Proof. unfold truncate. cbn. apply Z.mul_1_r. Qed.

(** C4, as the code has it: [xxhash64], [xxhash64Batch] and the
    constructor of [XxHash64State] take the seed as a BigInt that fits 64
    unsigned bits or as a Number (a non-negative integer below [2^63] is
    used as it is); [xxhash64AsNumber] and [xxhash64BatchAsNumbers] take it
    as a Number only and do not read a BigInt, which leaves the seed at 0;
    on every entry point an absent seed is 0. *)
Theorem seed_encoding (B : list byte) (items : list Value) (z n : Z) :
  0 <= z < 2 ^ 64 ->
  0 <= n < 2 ^ 63 ->
  (XxHash64 [Buffer B; BigInt z] = Return (BigInt (XXH64 B z))
   /\ XxHash64Batch [Array items; BigInt z]
      = Return (Array (map (batch_item z) items))
   /\ new [BigInt z] = {| state_ := XXH64_reset XXH64_createState z; seed_ := z |})
  /\ (XxHash64 [Buffer B; Num (Finite n 0)] = Return (BigInt (XXH64 B n))
      /\ XxHash64AsNumber [Buffer B; Num (Finite n 0)]
         = Return (Number_New (low32 (XXH64 B n)))
      /\ XxHash64Batch [Array items; Num (Finite n 0)]
         = Return (Array (map (batch_item n) items))
      /\ XxHash64BatchAsNumbers [Array items; Num (Finite n 0)]
         = Return (Array (map (batch_item_number n) items))
      /\ new [Num (Finite n 0)]
         = {| state_ := XXH64_reset XXH64_createState n; seed_ := n |})
  /\ (XxHash64 [Buffer B] = Return (BigInt (XXH64 B 0))
      /\ XxHash64AsNumber [Buffer B] = Return (Number_New (low32 (XXH64 B 0)))
      /\ XxHash64Batch [Array items] = Return (Array (map (batch_item 0) items))
      /\ XxHash64BatchAsNumbers [Array items]
         = Return (Array (map (batch_item_number 0) items))
      /\ new [] = {| state_ := XXH64_reset XXH64_createState 0; seed_ := 0 |})
  /\ (XxHash64AsNumber [Buffer B; BigInt z] = XxHash64AsNumber [Buffer B]
      /\ XxHash64BatchAsNumbers [Array items; BigInt z]
         = XxHash64BatchAsNumbers [Array items]).
Proof.
  intros Hz Hn.
  assert (Ez : seed_BigInt_or_Number [BigInt z] 0 = z).
  { unfold seed_BigInt_or_Number. cbn. apply wrap_small, Hz. }
  assert (Ei : Int64Value (Finite n 0) = n).
  { rewrite Int64Value_in_range; rewrite truncate_integer; [reflexivity |].
    unfold INT64_MIN, INT64_MAX. split; [| apply Z.lt_le_pred, Hn].
    apply Z.le_trans with 0; [discriminate | apply Hn]. }
  assert (Ew : uint64_of_int64 n = n).
  { apply wrap_small. split; [apply Hn |].
    apply Z.lt_trans with (2 ^ 63); [apply Hn | reflexivity]. }
  assert (En : seed_BigInt_or_Number [Num (Finite n 0)] 0 = n).
  { unfold seed_BigInt_or_Number. cbn [length Nat.ltb Nat.leb arg nth IsBigInt
      IsNumber andb As_Number]. now rewrite Ei. }
  assert (En' : seed_Number [Num (Finite n 0)] 0 = n).
  { unfold seed_Number. cbn [length Nat.ltb Nat.leb arg nth IsNumber andb
      As_Number]. now rewrite Ei. }
  split_all; rewrite_entry_points; unfold new;
    rewrite ?Ez, ?En, ?En'; reflexivity.
Qed.

Lemma seed_encoding_witness :
  (XxHash64 [Buffer sample_bytes; BigInt 7] = Return (BigInt (XXH64 sample_bytes 7))
   /\ XxHash64Batch [Array sample_mixed; BigInt 7]
      = Return (Array (map (batch_item 7) sample_mixed))
   /\ new [BigInt 7] = {| state_ := XXH64_reset XXH64_createState 7; seed_ := 7 |})
  /\ (XxHash64 [Buffer sample_bytes; Num (Finite 9 0)]
      = Return (BigInt (XXH64 sample_bytes 9))
      /\ XxHash64AsNumber [Buffer sample_bytes; Num (Finite 9 0)]
         = Return (Number_New (low32 (XXH64 sample_bytes 9)))
      /\ XxHash64Batch [Array sample_mixed; Num (Finite 9 0)]
         = Return (Array (map (batch_item 9) sample_mixed))
      /\ XxHash64BatchAsNumbers [Array sample_mixed; Num (Finite 9 0)]
         = Return (Array (map (batch_item_number 9) sample_mixed))
      /\ new [Num (Finite 9 0)]
         = {| state_ := XXH64_reset XXH64_createState 9; seed_ := 9 |})
  /\ (XxHash64 [Buffer sample_bytes] = Return (BigInt (XXH64 sample_bytes 0))
      /\ XxHash64AsNumber [Buffer sample_bytes]
         = Return (Number_New (low32 (XXH64 sample_bytes 0)))
      /\ XxHash64Batch [Array sample_mixed]
         = Return (Array (map (batch_item 0) sample_mixed))
      /\ XxHash64BatchAsNumbers [Array sample_mixed]
         = Return (Array (map (batch_item_number 0) sample_mixed))
      /\ new [] = {| state_ := XXH64_reset XXH64_createState 0; seed_ := 0 |})
  /\ (XxHash64AsNumber [Buffer sample_bytes; BigInt 7]
      = XxHash64AsNumber [Buffer sample_bytes]
      /\ XxHash64BatchAsNumbers [Array sample_mixed; BigInt 7]
         = XxHash64BatchAsNumbers [Array sample_mixed]).
Proof.
  apply (seed_encoding sample_bytes sample_mixed 7 9).
  - split; [discriminate | reflexivity].
  - split; [discriminate | reflexivity].
Defined.

(** C4, as the claim has it, fails on the truncated entry point: the BigInt
    seed 1 is not used; the result is the one for seed 0 and differs from
    the one for seed 1. *)
Lemma truncated_entry_ignores_BigInt_seed :
  XxHash64AsNumber [Buffer []; BigInt 1]
  = Return (Number_New (low32 (XXH64 [] 0)))
  /\ XxHash64AsNumber [Buffer []; BigInt 1]
     <> Return (Number_New (low32 (XXH64 [] 1))).
Proof. split; [reflexivity | vm_compute; discriminate]. Qed.

(** C10, as the code has it: a BigInt seed of any sign and width is
    reduced modulo [2^64] by [xxhash64], [xxhash64Batch] and the
    constructor of [XxHash64State]; a Number seed whose value, rounded
    toward zero, lies in the signed 64-bit range is reduced modulo [2^64]
    by every entry point, [xxhash64AsNumber] and [xxhash64BatchAsNumbers]
    included, so that [-1] becomes [2^64 - 1]; neither raises an error. *)
Theorem seed_reduced_modulo_2_64
    (B : list byte) (items : list Value) (z m e : Z) :
  INT64_MIN <= truncate m e <= INT64_MAX ->
  (XxHash64 [Buffer B; BigInt z] = Return (BigInt (XXH64 B (z mod 2 ^ 64)))
   /\ XxHash64Batch [Array items; BigInt z]
      = Return (Array (map (batch_item (z mod 2 ^ 64)) items))
   /\ seed_ (new [BigInt z]) = z mod 2 ^ 64)
  /\ (XxHash64 [Buffer B; Num (Finite m e)]
      = Return (BigInt (XXH64 B (truncate m e mod 2 ^ 64)))
      /\ XxHash64AsNumber [Buffer B; Num (Finite m e)]
         = Return (Number_New (low32 (XXH64 B (truncate m e mod 2 ^ 64))))
      /\ XxHash64Batch [Array items; Num (Finite m e)]
         = Return (Array (map (batch_item (truncate m e mod 2 ^ 64)) items))
      /\ XxHash64BatchAsNumbers [Array items; Num (Finite m e)]
         = Return (Array (map (batch_item_number (truncate m e mod 2 ^ 64))
                              items))
      /\ seed_ (new [Num (Finite m e)]) = truncate m e mod 2 ^ 64)
  /\ seed_ (new [Num (Finite (-1) 0)]) = 2 ^ 64 - 1.
Proof.
  intros Hr.
  assert (Ez : seed_BigInt_or_Number [BigInt z] 0 = z mod 2 ^ 64)
    by reflexivity.
  assert (En : seed_BigInt_or_Number [Num (Finite m e)] 0
               = truncate m e mod 2 ^ 64).
  { unfold seed_BigInt_or_Number. cbn [length Nat.ltb Nat.leb arg nth IsBigInt
      IsNumber andb As_Number]. now rewrite Int64Value_in_range. }
  assert (En' : seed_Number [Num (Finite m e)] 0 = truncate m e mod 2 ^ 64).
  { unfold seed_Number. cbn [length Nat.ltb Nat.leb arg nth IsNumber andb
      As_Number]. now rewrite Int64Value_in_range. }
  split_all; rewrite_entry_points; unfold new; cbn [seed_];
    rewrite ?Ez, ?En, ?En'; reflexivity.
Qed.

Lemma seed_reduced_modulo_2_64_witness :
  (XxHash64 [Buffer sample_bytes; BigInt (2 ^ 64 + 5)]
   = Return (BigInt (XXH64 sample_bytes ((2 ^ 64 + 5) mod 2 ^ 64)))
   /\ XxHash64Batch [Array sample_mixed; BigInt (2 ^ 64 + 5)]
      = Return (Array (map (batch_item ((2 ^ 64 + 5) mod 2 ^ 64)) sample_mixed))
   /\ seed_ (new [BigInt (2 ^ 64 + 5)]) = (2 ^ 64 + 5) mod 2 ^ 64)
  /\ (XxHash64 [Buffer sample_bytes; Num (Finite (-5) (-1))]
      = Return (BigInt (XXH64 sample_bytes (truncate (-5) (-1) mod 2 ^ 64)))
      /\ XxHash64AsNumber [Buffer sample_bytes; Num (Finite (-5) (-1))]
         = Return (Number_New
                     (low32 (XXH64 sample_bytes (truncate (-5) (-1) mod 2 ^ 64))))
      /\ XxHash64Batch [Array sample_mixed; Num (Finite (-5) (-1))]
         = Return (Array (map (batch_item (truncate (-5) (-1) mod 2 ^ 64))
                              sample_mixed))
      /\ XxHash64BatchAsNumbers [Array sample_mixed; Num (Finite (-5) (-1))]
         = Return (Array (map (batch_item_number
                                 (truncate (-5) (-1) mod 2 ^ 64))
                              sample_mixed))
      /\ seed_ (new [Num (Finite (-5) (-1))]) = truncate (-5) (-1) mod 2 ^ 64)
  /\ seed_ (new [Num (Finite (-1) 0)]) = 2 ^ 64 - 1.
Proof.
  apply (seed_reduced_modulo_2_64 sample_bytes sample_mixed (2 ^ 64 + 5) (-5) (-1)).
  split; vm_compute; discriminate.
Defined.

(** C10, as the claim has it, fails in two places.  A Number beyond the
    signed 64-bit range is not reduced: for [2^64] the conversion saturates
    and the seed is [2^63 - 1], not [0].  And [xxhash64AsNumber] does not
    read a BigInt seed at all: [2^64 + 1] contributes nothing, the result
    being the one for seed 0 and not the one for seed 1. *)
Lemma huge_Number_seed_not_reduced :
  (seed_ (new [Num (Finite 1 64)]) = 2 ^ 63 - 1
   /\ seed_ (new [Num (Finite 1 64)]) <> 2 ^ 64 mod 2 ^ 64
   /\ XxHash64 [Buffer []; Num (Finite 1 64)]
      <> Return (BigInt (XXH64 [] (2 ^ 64 mod 2 ^ 64))))
  /\ (XxHash64AsNumber [Buffer []; BigInt (2 ^ 64 + 1)]
      = Return (Number_New (low32 (XXH64 [] 0)))
      /\ XxHash64AsNumber [Buffer []; BigInt (2 ^ 64 + 1)]
         <> Return (Number_New (low32 (XXH64 [] ((2 ^ 64 + 1) mod 2 ^ 64))))).
Proof. split_all; vm_compute; (reflexivity || discriminate). Qed.

(** * Further properties of the entry points *)

(** ** Ranges of the returned values *)

Lemma wrap_range (a : Z) : 0 <= U64.wrap a < 2 ^ 64.
Proof. unfold U64.wrap, U64.modulus. apply Z.mod_pos_bound. reflexivity. Qed.

Lemma lxor_range (a b : Z) :
  0 <= a < 2 ^ 64 -> 0 <= b < 2 ^ 64 -> 0 <= Z.lxor a b < 2 ^ 64.
Proof.
  intros Ha Hb.
  assert (E : Z.lxor a b = Z.lxor a b mod 2 ^ 64).
  { apply Z.bits_inj'. intros n Hn.
    destruct (Z.lt_ge_cases n 64) as [Hlow | Hhigh].
    - now rewrite Z.mod_pow2_bits_low by exact Hlow.
    - rewrite Z.mod_pow2_bits_high by (split; [discriminate | exact Hhigh]).
      rewrite Z.lxor_spec.
      rewrite <- (Z.mod_small a (2 ^ 64)) by exact Ha.
      rewrite <- (Z.mod_small b (2 ^ 64)) by exact Hb.
      now rewrite !Z.mod_pow2_bits_high
        by (split; [discriminate | exact Hhigh]). }
  rewrite E. apply Z.mod_pos_bound. reflexivity.
Qed.

Lemma shiftr_range (a n : Z) :
  0 <= n -> 0 <= a < 2 ^ 64 -> 0 <= Z.shiftr a n < 2 ^ 64.
Proof.
  intros Hn [Ha Hlt]. rewrite Z.shiftr_div_pow2 by exact Hn.
  assert (Hp : 0 < 2 ^ n) by (apply Z.pow_pos_nonneg; [reflexivity | exact Hn]).
  split.
  - apply Z.div_pos; assumption.
  - apply Z.le_lt_trans with a; [| exact Hlt].
    apply Z.div_le_upper_bound; [exact Hp |].
    clear Hlt. nia.
Qed.

Lemma avalanche_range (h : Z) : 0 <= avalanche h < 2 ^ 64.
Proof.
  unfold avalanche. cbv zeta.
  apply lxor_range; [| apply shiftr_range; [discriminate |]];
    apply wrap_range.
Qed.

Lemma XXH64_range (input : list byte) (seed : Z) :
  0 <= XXH64 input seed < 2 ^ 64.
Proof.
  unfold XXH64.
  destruct (32 <=? length input)%nat;
    [destruct (consume (init_accs seed) input) |]; apply avalanche_range.
Qed.

Lemma XXH64_digest_range (st : XXH64_state_t) :
  0 <= XXH64_digest st < 2 ^ 64.
Proof.
  unfold XXH64_digest.
  destruct (32 <=? total_len st); [apply avalanche_range | apply XXH64_range].
Qed.

Lemma low32_range (hash : Z) : 0 <= low32 hash < 2 ^ 32.
Proof. rewrite low32_mod. apply Z.mod_pos_bound. reflexivity. Qed.



(** X2: [digest] always returns a BigInt in [0, 2^64) and [digestAsNumber]
    an integer Number in [0, 2^32); neither throws, on any instance and
    with any arguments. *)
Theorem digest_results_in_range (h : t) (info : CallbackInfo) :
  (exists x, snd (Digest h info) = Return x /\ uint64_BigInt x)
  /\ (exists x, snd (DigestAsNumber h info) = Return x /\ uint32_Number x).
Proof.
  split; eexists; (split; [reflexivity |]).
  - eexists; split; [reflexivity | apply XXH64_digest_range].
  - eexists; split; [reflexivity | apply low32_range].
Qed.

(** X3: when the first argument is missing or is not byte-bearing, the two
    one-shot entry points throw with these messages: [xxhash64] says
    "Expected at least 1 argument" when called without arguments and
    "Expected Buffer or TypedArray" otherwise; [xxhash64AsNumber] says
    "Expected Buffer or TypedArray" in both cases. *)
Theorem one_shot_error_messages (info : CallbackInfo) :
  byte_bearing (arg info 0) = false ->
  XxHash64 info
  = Throw (TypeError (match info with
                      | [] => "Expected at least 1 argument"
                      | _ :: _ => "Expected Buffer or TypedArray"
                      end)%string)
  /\ XxHash64AsNumber info = Throw (TypeError "Expected Buffer or TypedArray"%string).
Proof.
  intros Hx. unfold XxHash64, XxHash64AsNumber.
  rewrite type_check_byte_bearing, Hx.
  destruct info as [| x rest]; split; reflexivity.
Qed.

Lemma one_shot_error_messages_witness :
  XxHash64 [] = Throw (TypeError "Expected at least 1 argument"%string)
  /\ XxHash64AsNumber [] = Throw (TypeError "Expected Buffer or TypedArray"%string).
Proof. apply (one_shot_error_messages []). reflexivity. Defined.

(** ** More on batches *)





(** X6: when the seed argument is not a BigInt, the array
    [xxhash64BatchAsNumbers] returns is, slot by slot, the low 32 bits of
    the array [xxhash64Batch] returns for the same arguments, the zero
    slots of non-byte-bearing elements included. *)
Theorem batch_numbers_are_low32 (items : list Value) (seedargs : CallbackInfo) :
  IsBigInt (arg seedargs 0) = false ->
  exists hashes,
    XxHash64Batch (Array items :: seedargs) = Return (Array (map BigInt hashes))
    /\ XxHash64BatchAsNumbers (Array items :: seedargs)
       = Return (Array (map (fun hash => Num (Finite (hash mod 2 ^ 32) 0))
                            hashes)).
Proof.
  intros Hseed.
  exists (map (fun x => if byte_bearing x
                        then XXH64 (buffer_data x)
                                   (seed_BigInt_or_Number seedargs 0)
                        else 0) items).
  rewrite XxHash64Batch_map, XxHash64BatchAsNumbers_map, !map_map.
  rewrite seed_Number_eq by exact Hseed.
  split; do 2 f_equal; apply map_ext; intros x.
  - unfold batch_item. rewrite type_check_byte_bearing.
    destruct (byte_bearing x); reflexivity.
  - unfold batch_item_number. rewrite type_check_byte_bearing.
    destruct (byte_bearing x); cbn [negb]; unfold Number_New.
    + now rewrite low32_mod.
    + reflexivity.
Qed.

Lemma batch_numbers_are_low32_witness :
  exists hashes,
    XxHash64Batch (Array sample_mixed :: [Num (Finite 7 0)])
    = Return (Array (map BigInt hashes))
    /\ XxHash64BatchAsNumbers (Array sample_mixed :: [Num (Finite 7 0)])
       = Return (Array (map (fun hash => Num (Finite (hash mod 2 ^ 32) 0))
                            hashes)).
Proof.
  apply (batch_numbers_are_low32 sample_mixed [Num (Finite 7 0)]).
  reflexivity.
Defined.

(** X7: a batch over two arrays put end to end returns the results of the
    first followed by the results of the second: a slot depends on its own
    element and the seed only.  In particular the empty array gives the
    empty array. *)
Theorem batch_of_append (xs ys : list Value) (seedargs : CallbackInfo) :
  exists rx ry nx ny,
    XxHash64Batch (Array xs :: seedargs) = Return (Array rx)
    /\ XxHash64Batch (Array ys :: seedargs) = Return (Array ry)
    /\ XxHash64Batch (Array (xs ++ ys) :: seedargs) = Return (Array (rx ++ ry))
    /\ XxHash64BatchAsNumbers (Array xs :: seedargs) = Return (Array nx)
    /\ XxHash64BatchAsNumbers (Array ys :: seedargs) = Return (Array ny)
    /\ XxHash64BatchAsNumbers (Array (xs ++ ys) :: seedargs)
       = Return (Array (nx ++ ny))
    /\ XxHash64Batch (Array [] :: seedargs) = Return (Array [])
    /\ XxHash64BatchAsNumbers (Array [] :: seedargs) = Return (Array []).
Proof.
  do 4 eexists. rewrite !XxHash64Batch_map, !XxHash64BatchAsNumbers_map.
  rewrite !map_app. split_all; reflexivity.
Qed.

(** ** Arguments *)

Lemma typed_array_window (pre w post : list byte) :
  buffer_data (TypedArray (pre ++ w ++ post) (length pre) (length w)) = w.
Proof.
  unfold buffer_data. cbn [IsBuffer Buffer_Data]. unfold window.
  rewrite skipn_app, skipn_all, Nat.sub_diag. cbn [skipn app].
  rewrite firstn_app, firstn_all, Nat.sub_diag. cbn [firstn].
  apply app_nil_r.
Qed.

(** X8: a typed array is hashed through its window only: with [ByteOffset]
    and [ByteLength] selecting the bytes [w] of the underlying
    [ArrayBuffer], the one-shot entry points and [update] behave as on a
    Buffer holding [w]; the bytes before and after the window play no
    part. *)
Theorem typed_array_hashes_its_window
    (pre w post : list byte) (rest : CallbackInfo) (h : t) :
  let view := TypedArray (pre ++ w ++ post) (length pre) (length w) in
  XxHash64 (view :: rest) = XxHash64 (Buffer w :: rest)
  /\ XxHash64AsNumber (view :: rest) = XxHash64AsNumber (Buffer w :: rest)
  /\ Update h (view :: rest) = Update h (Buffer w :: rest)
  /\ XxHash64Batch (Array [view] :: rest) = XxHash64Batch (Array [Buffer w] :: rest).
Proof.
  intros view. subst view.
  rewrite !XxHash64_byte_bearing, !XxHash64AsNumber_byte_bearing,
    !Update_byte_bearing, !XxHash64Batch_map by reflexivity.
  cbn [map]. unfold batch_item.
  cbn [IsBuffer IsTypedArray negb andb].
  rewrite !typed_array_window. split_all; reflexivity.
Qed.

(** X9: the seed is read at its position only and never causes an error:
    a seed argument that is neither a BigInt nor a Number (a string, a
    boolean, null, undefined, an object) is treated like an absent seed,
    and arguments after the seed are ignored, on all entry points and in
    the constructor. *)
Theorem seed_of_other_type_is_absent
    (x : Value) (s : Value) (extra : CallbackInfo) (items : list Value) :
  IsBigInt s = false ->
  IsNumber s = false ->
  XxHash64 (x :: s :: extra) = XxHash64 [x]
  /\ XxHash64AsNumber (x :: s :: extra) = XxHash64AsNumber [x]
  /\ XxHash64Batch (Array items :: s :: extra) = XxHash64Batch [Array items]
  /\ XxHash64BatchAsNumbers (Array items :: s :: extra)
     = XxHash64BatchAsNumbers [Array items]
  /\ new (s :: extra) = new [].
Proof.
  intros Hb Hn.
  assert (E : seed_BigInt_or_Number (s :: extra) 0 = 0).
  { unfold seed_BigInt_or_Number. cbn [arg nth]. now rewrite Hb, Hn, !andb_false_r. }
  assert (E' : seed_Number (s :: extra) 0 = 0).
  { unfold seed_Number. cbn [arg nth]. now rewrite Hn, andb_false_r. }
  split_all.
  - unfold XxHash64. rewrite !seed_BigInt_or_Number_shift, E. reflexivity.
  - unfold XxHash64AsNumber. rewrite !seed_Number_shift, E'. reflexivity.
  - rewrite !XxHash64Batch_map, E. reflexivity.
  - rewrite !XxHash64BatchAsNumbers_map, E'. reflexivity.
  - unfold new. rewrite E. reflexivity.
Qed.

Lemma seed_of_other_type_is_absent_witness :
  XxHash64 [Buffer sample_bytes; Str "7"; BigInt 7] = XxHash64 [Buffer sample_bytes]
  /\ XxHash64AsNumber [Buffer sample_bytes; Str "7"; BigInt 7]
     = XxHash64AsNumber [Buffer sample_bytes]
  /\ XxHash64Batch [Array sample_mixed; Str "7"; BigInt 7]
     = XxHash64Batch [Array sample_mixed]
  /\ XxHash64BatchAsNumbers [Array sample_mixed; Str "7"; BigInt 7]
     = XxHash64BatchAsNumbers [Array sample_mixed]
  /\ new [Str "7"; BigInt 7] = new [].
Proof.
  apply (seed_of_other_type_is_absent (Buffer sample_bytes) (Str "7")
           [BigInt 7] sample_mixed).
  - reflexivity.
  - reflexivity.
Defined.

(** ** Instances over their whole life *)

Lemma after_cons (h : t) (c : call) (cs : list call) :
  after h (c :: cs) = after (fst (invoke h c)) cs.
Proof. reflexivity. Qed.

Lemma invoke_state_after (s : Z) (B : list byte) (c : call) :
  fst (invoke {| state_ := state_after s B; seed_ := s |} c)
  = {| state_ := state_after s (history_step B c); seed_ := s |}.
Proof.
  destruct c as [info | info | info | info]; cbn [invoke history_step].
  - unfold Update. rewrite type_check_byte_bearing.
    destruct (byte_bearing (arg info 0)); cbn [negb fst state_ seed_].
    + now rewrite update_state_after.
    + reflexivity.
  - reflexivity.
  - reflexivity.
  - reflexivity.
Qed.

Lemma after_state_after (s : Z) (cs : list call) :
  forall B : list byte,
    after {| state_ := state_after s B; seed_ := s |} cs
    = {| state_ := state_after s (fold_left history_step cs B); seed_ := s |}.
Proof.
  induction cs as [| c cs IH]; intros B.
  - reflexivity.
  - rewrite after_cons, invoke_state_after, IH. reflexivity.
Qed.

Lemma after_new (seedargs : CallbackInfo) (cs : list call) :
  after (new seedargs) cs
  = {| state_ := state_after (seed_BigInt_or_Number seedargs 0) (history cs);
       seed_ := seed_BigInt_or_Number seedargs 0 |}.
Proof. rewrite new_state_after. apply after_state_after. Qed.

(** X10: after any sequence of calls on a new instance (accepted and
    refused updates, digests, resets, in any order) [digest] returns what
    the one-shot [xxhash64] returns, with the constructor's seed argument,
    for the bytes of the accepted updates made since the last reset, and
    [digestAsNumber] returns its low 32 bits. *)
Theorem digest_after_any_calls (seedargs : CallbackInfo) (cs : list call) :
  Z.of_nat (length (history cs)) < 2 ^ 64 ->
  snd (Digest (after (new seedargs) cs) [])
  = XxHash64 (Buffer (history cs) :: seedargs)
  /\ exists hash,
       XxHash64 (Buffer (history cs) :: seedargs) = Return (BigInt hash)
       /\ snd (DigestAsNumber (after (new seedargs) cs) [])
          = Return (Num (Finite (hash mod 2 ^ 32) 0)).
Proof.
  intros Hlen. rewrite after_new. unfold Digest, DigestAsNumber.
  cbn [snd state_]. rewrite digest_state_after by exact Hlen.
  rewrite XxHash64_byte_bearing by reflexivity.
  split; [reflexivity |]. eexists. split; [reflexivity |].
  unfold Number_New. now rewrite low32_mod.
Qed.

Lemma digest_after_any_calls_witness :
  snd (Digest (after (new [BigInt 7]) sample_calls) [])
  = XxHash64 (Buffer (history sample_calls) :: [BigInt 7])
  /\ exists hash,
       XxHash64 (Buffer (history sample_calls) :: [BigInt 7])
       = Return (BigInt hash)
       /\ snd (DigestAsNumber (after (new [BigInt 7]) sample_calls) [])
          = Return (Num (Finite (hash mod 2 ^ 32) 0)).
Proof.
  apply (digest_after_any_calls [BigInt 7] sample_calls).
  reflexivity.
Defined.

Lemma invoke_seed (h : t) (c : call) : seed_ (fst (invoke h c)) = seed_ h.
Proof.
  destruct c as [info | info | info | info]; cbn [invoke];
    [apply Update_seed | reflexivity | reflexivity | reflexivity].
Qed.

Lemma seed_BigInt_or_Number_range (info : CallbackInfo) (i : nat) :
  0 <= seed_BigInt_or_Number info i < 2 ^ 64.
Proof.
  unfold seed_BigInt_or_Number.
  destruct ((i <? length info)%nat && IsBigInt (arg info i));
    [apply wrap_range |].
  destruct ((i <? length info)%nat && IsNumber (arg info i));
    [apply wrap_range |].
  split; reflexivity.
Qed.

(** X11: the seed of an instance is fixed by the constructor: it lies in
    [0, 2^64) whatever the constructor was given, and no sequence of
    calls, starting from any instance, changes it. *)
Theorem seed_is_fixed (seedargs : CallbackInfo) (h : t) (cs : list call) :
  0 <= seed_ (new seedargs) < 2 ^ 64
  /\ seed_ (after h cs) = seed_ h.
Proof.
  split; [apply seed_BigInt_or_Number_range |].
  revert h. induction cs as [| c cs IH]; intros h.
  - reflexivity.
  - rewrite after_cons, IH. apply invoke_seed.
Qed.

Lemma XXH64_update_app (st : XXH64_state_t) (a b : list byte) :
  XXH64_update (XXH64_update st a) b = XXH64_update st (a ++ b).
Proof.
  unfold XXH64_update.
  rewrite (app_assoc (mem st) a b).
  rewrite (consume_app b (length (mem st ++ a)) (mem st ++ a)) by lia.
  destruct (consume (v st) (mem st ++ a)) as [v1 r1]. cbn [fst snd XXH.seed v mem total_len].
  destruct (consume v1 (r1 ++ b)) as [v2 r2]. f_equal.
  unfold U64.add at 2. fold (U64.wrap (total_len st + Z.of_nat (length a))).
  rewrite wrap_add_l, length_app. unfold U64.add, U64.wrap. f_equal. lia.
Qed.

(** X12: on any instance, one [update] with the bytes [a ++ b] leaves the
    instance in the same state as an [update] with [a] followed by an
    [update] with [b]: only the byte stream matters, not how it is cut. *)
Theorem update_of_append (h : t) (a b : list byte) :
  fst (Update (fst (Update h [Buffer a])) [Buffer b])
  = fst (Update h [Buffer (a ++ b)]).
Proof.
  rewrite !Update_byte_bearing by reflexivity. cbn [fst state_ seed_ buffer_data].
  now rewrite XXH64_update_app.
Qed.

(** X13: on an instance reached from the constructor by any sequence of
    calls, an [update] with an empty Buffer changes nothing and returns the
    receiver. *)
Theorem update_with_empty_buffer (seedargs : CallbackInfo) (cs : list call) :
  Update (after (new seedargs) cs) [Buffer []]
  = (after (new seedargs) cs, Return Receiver).
Proof.
  rewrite after_new, Update_byte_bearing by reflexivity.
  cbn [state_ seed_ buffer_data].
  now rewrite update_state_after, app_nil_r.
Qed.

(** X14: when the constructor's seed argument is not a BigInt, the
    truncated streaming result agrees with the truncated one-shot entry
    point: after any sequence of calls, [digestAsNumber] returns what
    [xxhash64AsNumber] returns for the bytes taken in since the last reset
    and the same seed argument. *)
Theorem digestAsNumber_eq_one_shot (seedargs : CallbackInfo) (cs : list call) :
  IsBigInt (arg seedargs 0) = false ->
  Z.of_nat (length (history cs)) < 2 ^ 64 ->
  snd (DigestAsNumber (after (new seedargs) cs) [])
  = XxHash64AsNumber (Buffer (history cs) :: seedargs).
Proof.
  intros Hseed Hlen. rewrite after_new. unfold DigestAsNumber.
  cbn [snd state_]. rewrite digest_state_after by exact Hlen.
  rewrite XxHash64AsNumber_byte_bearing by reflexivity.
  now rewrite seed_Number_eq by exact Hseed.
Qed.

Lemma digestAsNumber_eq_one_shot_witness :
  snd (DigestAsNumber (after (new [Num (Finite 7 0)]) sample_calls) [])
  = XxHash64AsNumber (Buffer (history sample_calls) :: [Num (Finite 7 0)]).
Proof.
  apply (digestAsNumber_eq_one_shot [Num (Finite 7 0)] sample_calls).
  - reflexivity.
  - reflexivity.
Defined.

Lemma consume_rest (n : nat) :
  forall (p : list byte) (a : accs),
    (length p <= n)%nat ->
    snd (consume a p) = skipn (32 * (length p / 32)) p.
Proof.
  induction n as [| n IH]; intros p a Hn.
  - rewrite consume_short, Nat.div_small by lia. reflexivity.
  - destruct (Nat.lt_ge_cases (length p) 32) as [Hs | Hl].
    + rewrite consume_short, Nat.div_small by lia. reflexivity.
    + rewrite consume_step by exact Hl.
      rewrite IH by (rewrite length_skipn; lia).
      rewrite skipn_skipn, length_skipn. f_equal.
      replace (length p) with (1 * 32 + (length p - 32))%nat at 2 by lia.
      rewrite Nat.div_add_l by discriminate. lia.
Qed.

(** X15: on an instance reached from the constructor by any sequence of
    calls, the buffered tail holds fewer than 32 bytes: exactly the bytes
    taken in since the last reset that lie after the last full 32-byte
    stripe; and the length counter is their total count modulo [2^64]. *)
Theorem buffered_tail_invariant (seedargs : CallbackInfo) (cs : list call) :
  let st := state_ (after (new seedargs) cs) in
  let B := history cs in
  (length (mem st) < 32)%nat
  /\ mem st = skipn (length B - length B mod 32) B
  /\ total_len st = Z.of_nat (length B) mod 2 ^ 64.
Proof.
  intros st B. subst st B. rewrite after_new.
  cbn [state_ state_after mem total_len].
  rewrite (consume_rest (length (history cs))) by lia.
  assert (E : (32 * (length (history cs) / 32)
               = length (history cs) - length (history cs) mod 32)%nat).
  { rewrite (Nat.div_mod_eq (length (history cs)) 32) at 2. lia. }
  rewrite E. split_all.
  - rewrite length_skipn.
    pose proof (Nat.mod_upper_bound (length (history cs)) 32).
    pose proof (Nat.Div0.mod_le (length (history cs)) 32). lia.
  - reflexivity.
  - reflexivity.
Qed.
